(** * Verification of the mirascope documentation snippets

    Two programs are embedded here:

    - [SkeletonOfThought]: the fan-out/fan-in orchestrator of
      docs/tutorials/prompt_engineering/chaining_based/skeleton_of_thought.ipynb
      ([break_into_subpoints], [expand_subpoint], [skeleton_of_thought]);
    - [DocAgentEval]: the code-snippet checkers of
      docs/cookbook/evals/evaluating_documentation_agent.md
      ([check_syntax], [is_importable], [check_module], [check_attribute]).

    The LLM provider, the Python parser and the import system are
    collaborators the snippets call into; they are Section variables, so
    every theorem holds for every behaviour of them. *)

From Stdlib Require Import Ascii.
From stdpp Require Import base list strings pretty.

Open Scope string_scope.
Open Scope list_scope.

(** The one-character string that Python writes ["\n"]. *)
Definition newline : string := String "010"%char EmptyString.

(** Python's [sep.join(parts)]. *)
Fixpoint join (sep : string) (parts : list string) : string :=
  match parts with
  | [] => ""
  | [p] => p
  | p :: rest => p +:+ sep +:+ join sep rest
  end.

(** A call either returns or raises a Python exception. *)
Inductive outcome (E A : Type) : Type :=
| Returns (a : A)
| Raises (e : E).
Arguments Returns {E A} a.
Arguments Raises {E A} e.

Module SkeletonOfThought.

(** [class Skeleton(BaseModel): subpoints: list[str]]; the field carries a
    description only, no length or content constraint. *)
Record Skeleton := { subpoints : list string }.

(** The response object of a plain [openai.call]; the orchestrator reads
    its [content] only. *)
Record CallResponse := { content : string }.

(** What one [expand_subpoint(query, skeleton, point_index)] call hands to
    its prompt template. *)
Record ExpandArgs := {
  arg_query : string;
  arg_skeleton : list string;
  arg_point_index : nat
}.

(** What an observer of one orchestration sees: requests to the text
    generation capability, and their completions. *)
Inductive event : Type :=
| OutlineCall (query : string)
| OutlineDone
| ExpandCall (args : ExpandArgs)
| ExpandDone (task : nat).

Definition is_call (ev : event) : bool :=
  match ev with
  | OutlineCall _ | ExpandCall _ => true
  | OutlineDone | ExpandDone _ => false
  end.

(** The requests of a trace. *)
Definition calls (tr : list event) : list event := List.filter is_call tr.

Definition is_done (ev : event) : Prop := exists i, ev = ExpandDone i.

(** The arguments of the expander invocations found in a trace, in the
    order they were issued. *)
Definition expand_calls (tr : list event) : list ExpandArgs :=
  omap (fun ev => match ev with ExpandCall a => Some a | _ => None end) tr.

Section Orchestrator.

(** Exception values; the snippet builds none of its own. *)
Variable exn : Type.

(** The text generation capability behind [@openai.call]: structured
    output for the outline, free text for an expansion. *)
Variable llm_outline : string -> outcome exn Skeleton.
Variable llm_expand : ExpandArgs -> outcome exn CallResponse.

(** Modelled from the spec: the body of [break_into_subpoints] is [...];
    the [openai.call] decorator that supplies it is not part of the
    sources.  Following section 4.1 it makes exactly one request to the
    capability and surfaces its failure unchanged.  It is a plain
    (synchronous) function: the request has completed when it returns
    or raises. *)
Definition break_into_subpoints (query : string)
  : outcome exn Skeleton * list event :=
  (llm_outline query, [OutlineCall query; OutlineDone]).

(** [expand_subpoint] is [async def]: calling it only builds a coroutine
    object that remembers its arguments; nothing runs yet. *)
Abbreviation coroutine := ExpandArgs (only parsing).

Definition expand_subpoint (query : string) (skeleton : list string)
    (point_index : nat) : coroutine :=
  {| arg_query := query;
     arg_skeleton := skeleton;
     arg_point_index := point_index |}.

(** Modelled from the spec: running the coroutine of [expand_subpoint]
    (decorator body not in the sources) makes exactly one request to
    the capability (section 4.2).  [start_task] is the request going
    out, [llm_expand] its eventual completion. *)
Definition start_task (c : coroutine) : event := ExpandCall c.

(** ** asyncio.gather

    [asyncio.gather] wraps every coroutine in a task, in argument order;
    the event loop starts the tasks in that order, each running up to
    its request.  The requests then complete in an order the program
    does not control: [sched] lists the task positions in completion
    order.  A successful completion is stored in the slot of its task;
    the first completion that raised is propagated at once
    ([return_exceptions] is left at its default).  When every slot is
    filled the slots are returned in argument order. *)
Abbreviation slots := (list (option CallResponse)) (only parsing).

Definition read_slots (s : slots) : option (list CallResponse) :=
  mapM id s.

(** [None]: the schedule ended with a task still pending, which a
    running event loop does not do. *)
Fixpoint complete (aws : list coroutine) (sched : list nat) (s : slots)
  : option (outcome exn (list CallResponse)) * list event :=
  match sched with
  | [] =>
      (match read_slots s with
       | Some results => Some (Returns results)
       | None => None
       end, [])
  | i :: sched' =>
      match aws !! i with
      | None => complete aws sched' s
      | Some c =>
          match llm_expand c with
          | Returns r =>
              let '(res, tr) := complete aws sched' (<[i := Some r]> s) in
              (res, ExpandDone i :: tr)
          | Raises e => (Some (Raises e), [ExpandDone i])
          end
      end
  end.

Definition gather (sched : list nat) (aws : list coroutine)
  : option (outcome exn (list CallResponse)) * list event :=
  let '(res, tr) := complete aws sched (replicate (length aws) None) in
  (res, map start_task aws ++ tr).

(** ** The orchestrator

    [tasks] is the list comprehension over [enumerate(skeleton.subpoints)];
    [sched] is the completion order that this run of the event loop
    happens to produce. *)
Definition tasks (query : string) (skeleton : Skeleton) : list coroutine :=
  imap (fun i subpoint =>
          expand_subpoint query (subpoints skeleton) (i + 1))
       (subpoints skeleton).

Definition skeleton_of_thought (sched : list nat) (query : string)
  : option (outcome exn string) * list event :=
  match break_into_subpoints query with
  | (Raises e, tr) => (Some (Raises e), tr)
  | (Returns skeleton, tr) =>
      match gather sched (tasks query skeleton) with
      | (Some (Returns results), tr') =>
          (Some (Returns (join newline (map content results))), tr ++ tr')
      | (Some (Raises e), tr') => (Some (Raises e), tr ++ tr')
      | (None, tr') => (None, tr ++ tr')
      end
  end.

(** A schedule is one in which each of the [n] tasks completes once. *)
Definition valid_schedule (n : nat) (sched : list nat) : Prop :=
  sched ≡ₚ seq 0 n.

(** ** Vocabulary of the statements *)

(** The slots after the completions [sched], when task [i] returns
    [rs !! i]. *)
Definition fill (rs : list CallResponse) (sched : list nat) (s : slots)
  : slots :=
  foldl (fun s i => match rs !! i with
                    | Some r => <[i := Some r]> s
                    | None => s
                    end) s sched.

(** Task [j] of [aws] returns, respectively raises [e]. *)
Definition returns_at (aws : list coroutine) (j : nat) : Prop :=
  forall c, aws !! j = Some c -> exists r, llm_expand c = Returns r.

Definition raises_at (aws : list coroutine) (j : nat) (e : exn) : Prop :=
  exists c, aws !! j = Some c /\ llm_expand c = Raises e.

(** The outline length the prompt asks the model for, read as an
    invariant with lower bound 1. *)
Definition outline_bounded (skeleton : Skeleton) : Prop :=
  1 <= length (subpoints skeleton) <= 10.

(** The raised exception accounts for every failed expansion and for
    nothing else: [failures_of] reads the collected failures off it. *)
Definition aggregates_failures (failures_of : exn -> list exn)
    (sched : list nat) (query : string) : Prop :=
  forall skeleton,
    llm_outline query = Returns skeleton ->
    (exists j e, raises_at (tasks query skeleton) j e) ->
    exists err,
      fst (skeleton_of_thought sched query) = Some (Raises err)
      /\ forall e, e ∈ failures_of err
                   <-> exists j, raises_at (tasks query skeleton) j e.

End Orchestrator.

Arguments break_into_subpoints {exn} llm_outline query.
Arguments expand_subpoint query skeleton point_index : assert.
Arguments tasks query skeleton : assert.
Arguments start_task c : assert.
Arguments read_slots s : assert.
Arguments valid_schedule n sched : assert.
Arguments fill rs sched s : assert.
Arguments returns_at {exn} llm_expand aws j.
Arguments raises_at {exn} llm_expand aws j e.
Arguments outline_bounded skeleton : assert.
Arguments aggregates_failures {exn} llm_outline llm_expand failures_of sched query.
Arguments complete {exn} llm_expand aws sched s.
Arguments gather {exn} llm_expand sched aws.
Arguments skeleton_of_thought {exn} llm_outline llm_expand sched query.

(** ** Test doubles

    Deterministic stand-ins for the capability; exceptions are their
    messages. *)
Definition mock_skeleton : Skeleton :=
  {| subpoints := ["Identify distractions"; "Practice mindfulness"] |}.

Definition mock_outline (query : string) : outcome string Skeleton :=
  Returns mock_skeleton.

Definition point_text (i : nat) : CallResponse :=
  {| content := "Point " +:+ pretty i +:+ " expanded." |}.

Definition mock_expand (a : ExpandArgs) : outcome string CallResponse :=
  Returns (point_text (arg_point_index a)).

Definition failing_outline (query : string) : outcome string Skeleton :=
  Raises "outline failed".

(** Every expansion fails, each with a message of its own. *)
Definition failing_expand (a : ExpandArgs) : outcome string CallResponse :=
  Raises ("expansion " +:+ pretty (arg_point_index a) +:+ " failed").

(** Only the expansion of point 1 fails. *)
Definition first_failing_expand (a : ExpandArgs)
  : outcome string CallResponse :=
  if decide (arg_point_index a = 1) then failing_expand a else mock_expand a.

(** Outlines outside the range the prompt suggests. *)
Definition empty_outline (query : string) : outcome string Skeleton :=
  Returns {| subpoints := [] |}.

Definition long_outline (query : string) : outcome string Skeleton :=
  Returns {| subpoints := replicate 11 "Get enough sleep" |}.

(** How often the character [c] occurs in [s]; with [c] the newline
    character, one less than the number of lines of a non-empty text. *)
Fixpoint count_char (c : ascii) (s : string) : nat :=
  match s with
  | EmptyString => 0
  | String a s' => (if Ascii.eqb c a then 1 else 0) + count_char c s'
  end.

Definition newline_char : ascii := "010"%char.

End SkeletonOfThought.

(** * The code-snippet checkers of the documentation-agent evaluation *)
Module DocAgentEval.

(** ** Exceptions

    The classes the snippet names in its [except] clauses, the built-in
    classes below them, [IndexError] for [node.names[0]], and
    [OtherException] for any class unrelated to these. *)
Inductive exc_class : Type :=
| SyntaxError
| IndentationError
| TabError
| ValueError
| UnicodeError
| ImportError
| ModuleNotFoundError
| AttributeError
| IndexError
| OtherException (cls : string).

(** The direct base class within this hierarchy, if any. *)
Definition base_class (c : exc_class) : option exc_class :=
  match c with
  | IndentationError => Some SyntaxError
  | TabError => Some IndentationError
  | UnicodeError => Some ValueError
  | ModuleNotFoundError => Some ImportError
  | _ => None
  end.

Global Instance exc_class_eq_dec : EqDecision exc_class.
Proof. solve_decision. Defined.

(** [issubclass(c, target)]; the hierarchy is two steps deep at most. *)
Definition issubclass (c target : exc_class) : bool :=
  bool_decide (c = target)
  || match base_class c with
     | Some b =>
         bool_decide (b = target)
         || match base_class b with
            | Some b' => bool_decide (b' = target)
            | None => false
            end
     | None => false
     end.

(** An exception object: its class and what [str(e)] gives. *)
Record exception := { exc_type : exc_class; exc_str : string }.

(** Does [except (c1, ..., cn)] catch [e]? *)
Definition caught_by (classes : list exc_class) (e : exception) : bool :=
  existsb (issubclass (exc_type e)) classes.

(** ** Syntax trees

    [Import] and [ImportFrom] with the fields the snippet reads; [Alias]
    is an [ast.alias] met as a child node; [Node] is a node of any other
    class, with its child nodes in field order. *)
Record alias := { name : string; asname : option string }.

#[local] Unset Elimination Schemes.
Inductive node : Type :=
| Import (names : list alias)
| ImportFrom (module : option string) (names : list alias) (level : nat)
| Alias (a : alias)
| Node (cls : string) (children : list node).
#[local] Set Elimination Schemes.

(** [isinstance(node, ast.Import | ast.ImportFrom)]. *)
Definition is_import (n : node) : bool :=
  match n with
  | Import _ | ImportFrom _ _ _ => true
  | Alias _ | Node _ _ => false
  end.

(** [ast.iter_child_nodes]. *)
Definition iter_child_nodes (n : node) : list node :=
  match n with
  | Import names => map Alias names
  | ImportFrom _ names _ => map Alias names
  | Alias _ => []
  | Node _ children => children
  end.

Fixpoint size (n : node) : nat :=
  match n with
  | Import names => S (length names)
  | ImportFrom _ names _ => S (length names)
  | Alias _ => 1
  | Node _ children => S (list_sum (map size children))
  end.

(** [ast.walk]: a queue that starts with the root; the node at the front
    is yielded and its children join the back.  Every step yields one
    node, so [size tree] steps empty the queue ([length_walk]). *)
Fixpoint walk_queue (steps : nat) (todo : list node) : list node :=
  match steps, todo with
  | S steps', n :: todo' =>
      n :: walk_queue steps' (todo' ++ iter_child_nodes n)
  | _, _ => []
  end.

Definition walk (tree : node) : list node := walk_queue (size tree) [tree].

Section Checkers.

(** The interpreter as the snippet finds it: import system, loaded
    modules, and so on. *)
Variable interp : Type.

(** Interpreter state and what has been printed. *)
Record state := { py : interp; stdout : list string }.

(** A computation may change the state, and returns or raises. *)
Definition M (A : Type) : Type := state -> outcome exception A * state.

Definition ret {A} (a : A) : M A := fun st => (Returns a, st).

Definition raise {A} (e : exception) : M A := fun st => (Raises e, st).

Definition bind {A B} (m : M A) (k : A -> M B) : M B :=
  fun st =>
    match m st with
    | (Returns a, st') => k a st'
    | (Raises e, st') => (Raises e, st')
    end.

(** [try: m  except classes as e: handler e]. *)
Definition try_except {A} (m : M A) (classes : list exc_class)
    (handler : exception -> M A) : M A :=
  fun st =>
    match m st with
    | (Returns a, st') => (Returns a, st')
    | (Raises e, st') =>
        if caught_by classes e then handler e st' else (Raises e, st')
    end.

Global Instance M_ret : MRet M := @ret.
Global Instance M_bind : MBind M := fun A B k m => bind m k.

(** [print(line)]. *)
Definition print (line : string) : M unit :=
  fun st => (Returns tt, {| py := py st; stdout := stdout st ++ [line] |}).

(** The built-in [compile(source, "<string>", "exec")]; the code object
    is dropped by the caller. *)
Variable compile : string -> outcome exception unit.

(** [ast.parse]. *)
Variable ast_parse : string -> outcome exception node.

(** [importlib.util]: module specs, module objects and the calls made on
    them.  [find_spec] receives the Python value it is called with, [None]
    included. *)
Variable module_spec : Type.
Variable module_obj : Type.
Variable find_spec : option string -> M (option module_spec).
Variable module_from_spec : module_spec -> M module_obj.
Variable has_loader : module_spec -> bool.
Variable exec_module : module_spec -> module_obj -> M unit.
Variable hasattr : module_obj -> string -> M bool.

Definition check_syntax (code_string : string) : M bool :=
  try_except
    (_ ← (fun st => (compile code_string, st)) : M unit;
     mret true)
    [SyntaxError]
    (fun e =>
       _ ← print ("Syntax error: " +:+ exc_str e);
       mret false).

Definition check_module (module_name : option string) : M bool :=
  try_except
    (spec ← find_spec module_name;
     mret (bool_decide (spec <> None)))
    [ImportError; AttributeError; ValueError]
    (fun _ => mret false).

Definition check_attribute (module_name : option string)
    (attribute : string) : M bool :=
  try_except
    (spec ← find_spec module_name;
     match spec with
     | None => mret false
     | Some spec =>
         module ← module_from_spec spec;
         _ ← (if has_loader spec then exec_module spec module else mret tt);
         hasattr module attribute
     end)
    [ImportError; AttributeError]
    (fun _ => mret false).

(** The inner loop of [is_importable]: [false] stands for the
    [return False] that leaves the function. *)
Fixpoint check_attributes (module_name : option string)
    (names : list alias) : M bool :=
  match names with
  | [] => mret true
  | alias :: names' =>
      ok ← check_attribute module_name (name alias);
      if negb ok then mret false else check_attributes module_name names'
  end.

(** One turn of the outer loop; [true] means the loop goes on. *)
Definition check_node (n : node) : M bool :=
  match n with
  | Import names =>
      match names with
      | [] => raise {| exc_type := IndexError;
                       exc_str := "list index out of range" |}
      | first :: _ => check_module (Some (name first))
      end
  | ImportFrom module names _ =>
      ok ← check_module module;
      if negb ok then mret false else check_attributes module names
  | Alias _ | Node _ _ => mret true
  end.

Fixpoint check_nodes (nodes : list node) : M bool :=
  match nodes with
  | [] => mret true
  | n :: nodes' =>
      ok ← check_node n;
      if negb ok then mret false else check_nodes nodes'
  end.

Definition is_importable (code_string : string) : M bool :=
  fun st =>
    match ast_parse code_string with
    | Raises e =>
        if caught_by [SyntaxError] e then (Returns false, st)
        else (Raises e, st)
    | Returns tree => check_nodes (walk tree) st
    end.

End Checkers.

Arguments Build_state {interp} py stdout.
Arguments py {interp} s.
Arguments stdout {interp} s.
Arguments ret {interp A} a st.
Arguments raise {interp A} e st.
Arguments bind {interp A B} m k st.
Arguments try_except {interp A} m classes handler st.
Arguments print {interp} line st.
Arguments check_syntax {interp} compile code_string.
Arguments check_module {interp module_spec} find_spec module_name.
Arguments check_attribute {interp module_spec module_obj} find_spec
  module_from_spec has_loader exec_module hasattr module_name attribute.
Arguments check_attributes {interp module_spec module_obj} find_spec
  module_from_spec has_loader exec_module hasattr module_name names.
Arguments check_node {interp module_spec module_obj} find_spec
  module_from_spec has_loader exec_module hasattr n.
Arguments check_nodes {interp module_spec module_obj} find_spec
  module_from_spec has_loader exec_module hasattr nodes.
Arguments is_importable {interp} ast_parse {module_spec module_obj} find_spec
  module_from_spec has_loader exec_module hasattr code_string.

(** ** The test of the agent's code answers

    [test_documentation_agent] for code: the agent and its [_call] are
    not part of the sources, so the response it produced is the argument.
    [assert a and b] evaluates [b] only when [a] is true and raises
    [AssertionError] when the conjunction is false. *)
Record Response := { classification : string; content : string }.

Definition AssertionError : exception :=
  {| exc_type := OtherException "AssertionError"; exc_str := "" |}.

Section AgentTest.
Variable interp : Type.
Variable compile : string -> outcome exception unit.
Variable ast_parse : string -> outcome exception node.
Variable module_spec : Type.
Variable module_obj : Type.
Variable find_spec : option string -> M interp (option module_spec).
Variable module_from_spec : module_spec -> M interp module_obj.
Variable has_loader : module_spec -> bool.
Variable exec_module : module_spec -> module_obj -> M interp unit.
Variable hasattr : module_obj -> string -> M interp bool.

Definition test_documentation_agent (response : Response) : M interp unit :=
  if decide (classification response = "code") then
    syntax_ok ← check_syntax compile (content response);
    both ← (if syntax_ok : bool
            then is_importable ast_parse find_spec module_from_spec
                   has_loader exec_module hasattr (content response)
            else mret false);
    if both : bool then mret tt else raise AssertionError
  else mret tt.

End AgentTest.

Arguments test_documentation_agent {interp} compile ast_parse
  {module_spec module_obj} find_spec module_from_spec has_loader exec_module
  hasattr response.

(** ** Vocabulary of the statements *)

(** [x] is [n] or lies below it. *)
Inductive descendant (x : node) : node -> Prop :=
| descendant_self : descendant x x
| descendant_child n c :
    c ∈ iter_child_nodes n -> descendant x c -> descendant x n.

(** What an import statement needs in an environment where [spec_res]
    is the answer of [find_spec], [mod_of] the module of a spec and
    [attr] its attributes: a plain import a first name that is found, a
    from-import a module that is found and has every imported name. *)
Definition import_ok {module_spec module_obj : Type}
    (spec_res : option string -> outcome exception (option module_spec))
    (mod_of : module_spec -> module_obj)
    (attr : module_obj -> string -> bool) (n : node) : Prop :=
  match n with
  | Import names =>
      exists first rest sp,
        names = first :: rest
        /\ spec_res (Some (name first)) = Returns (Some sp)
  | ImportFrom module names _ =>
      exists sp,
        spec_res module = Returns (Some sp)
        /\ forall a, a ∈ names -> attr (mod_of sp) (name a) = true
  | Alias _ | Node _ _ => True
  end.

(** ** A small interpreter for the examples

    [math] and [os] exist, [os] has the attribute [path].  The parser
    knows the two strings of [test_check_syntax] and three import lines,
    and answers for them as CPython does; any other string is outside
    what it was taught. *)
Definition plain (mod_name : string) : alias :=
  {| name := mod_name; asname := None |}.

Definition not_taught : exception :=
  {| exc_type := OtherException "NotImplementedError";
     exc_str := "string unknown to the small interpreter" |}.

Definition demo_compile (code_string : string) : outcome exception unit :=
  if decide (code_string = "print('Hello, World!')")
  then Returns tt
  else if decide (code_string = "print('Hello, World!'")
  then Raises {| exc_type := SyntaxError;
                 exc_str := "'(' was never closed (<string>, line 1)" |}
  else Raises not_taught.

Definition demo_parse (code_string : string) : outcome exception node :=
  if decide (code_string = "import math, non_existent_module")
  then Returns (Node "Module"
                  [Import [plain "math"; plain "non_existent_module"]])
  else if decide (code_string = "import non_existent_module")
  then Returns (Node "Module" [Import [plain "non_existent_module"]])
  else if decide (code_string = "from os import path, nonexistent_function")
  then Returns (Node "Module"
                  [ImportFrom (Some "os")
                     [plain "path"; plain "nonexistent_function"] 0])
  else if decide (code_string = "print('Hello, World!')")
  then Returns (Node "Module"
                  [Node "Expr"
                     [Node "Call"
                        [Node "Name" [Node "Load" []]; Node "Constant" []]]])
  else if decide (code_string = "print('Hello, World!'")
  then Raises {| exc_type := SyntaxError;
                 exc_str := "'(' was never closed (<unknown>, line 1)" |}
  else Raises not_taught.

Definition demo_find_spec (module_name : option string)
  : M unit (option string) :=
  match module_name with
  | None =>
      raise {| exc_type := AttributeError;
               exc_str := "'NoneType' object has no attribute 'startswith'" |}
  | Some m =>
      if decide (m = "math" \/ m = "os") then ret (Some m) else ret None
  end.

Definition demo_module_from_spec (sp : string) : M unit string := ret sp.

Definition demo_has_loader (sp : string) : bool := true.

Definition demo_exec_module (sp module : string) : M unit unit := ret tt.

Definition demo_hasattr (module attribute : string) : M unit bool :=
  ret (bool_decide (module = "os" /\ attribute = "path")).

Definition demo_is_importable : string -> M unit bool :=
  is_importable demo_parse demo_find_spec demo_module_from_spec
    demo_has_loader demo_exec_module demo_hasattr.

Definition start : state unit := {| py := tt; stdout := [] |}.

(** The answers of the small interpreter as plain functions. *)
Definition demo_spec_res (module_name : option string)
  : outcome exception (option string) :=
  fst (demo_find_spec module_name start).

Definition demo_attr (module attribute : string) : bool :=
  bool_decide (module = "os" /\ attribute = "path").

(** An interpreter started on a script file: the module [__main__] is
    loaded and has no spec ([__main__.__spec__] is [None]), and for a
    loaded module without a spec [find_spec] raises [ValueError]. *)
Definition script_find_spec (module_name : option string)
  : M unit (option string) :=
  if decide (module_name = Some "__main__")
  then raise {| exc_type := ValueError;
                exc_str := "__main__.__spec__ is None" |}
  else demo_find_spec module_name.

(** A string that the grammar accepts and the compiler rejects:
    [ast.parse("return 1")] gives a module with one [Return] statement,
    [compile("return 1", "<string>", "exec")] raises a [SyntaxError]. *)
Definition return_compile (code_string : string) : outcome exception unit :=
  if decide (code_string = "return 1")
  then Raises {| exc_type := SyntaxError;
                 exc_str := "'return' outside function (<string>, line 1)" |}
  else demo_compile code_string.

Definition return_parse (code_string : string) : outcome exception node :=
  if decide (code_string = "return 1")
  then Returns (Node "Module" [Node "Return" [Node "Constant" []]])
  else demo_parse code_string.

End DocAgentEval.

(** * Properties of the orchestrator *)
Module SkeletonOfThoughtSpec.
Import SkeletonOfThought.

Section Results.
Variable exn : Type.
Variable llm_expand : ExpandArgs -> outcome exn CallResponse.

Implicit Types (aws : list ExpandArgs) (sched : list nat).
Implicit Types (s : list (option CallResponse)) (rs : list CallResponse).

Lemma length_fill rs sched s : length (fill rs sched s) = length s.
Proof.
  revert s; induction sched as [|i sched IH]; intros s; simpl; [done|].
  destruct (rs !! i); rewrite IH; [apply length_insert | done].
Qed.

Lemma lookup_fill_other rs sched s j :
  j ∉ sched -> fill rs sched s !! j = s !! j.
Proof.
  revert s; induction sched as [|i sched IH]; intros s Hj; simpl; [done|].
  apply not_elem_of_cons in Hj as [Hne Hj].
  destruct (rs !! i); rewrite IH by done; [|done].
  by apply list_lookup_insert_ne.
Qed.

Lemma lookup_fill_done rs sched s j r :
  length s = length rs -> NoDup sched -> j ∈ sched -> rs !! j = Some r ->
  fill rs sched s !! j = Some (Some r).
Proof.
  revert s; induction sched as [|i sched IH]; intros s Hlen Hnd Hj Hr; simpl.
  - by apply elem_of_nil in Hj.
  - apply NoDup_cons in Hnd as [Hi Hnd].
    apply elem_of_cons in Hj as [->|Hj].
    + rewrite Hr, lookup_fill_other by done.
      apply list_lookup_insert_eq. rewrite Hlen. by eapply lookup_lt_Some.
    + destruct (rs !! i); apply IH; try done.
      by rewrite length_insert.
Qed.

(** Once every task has completed the slots hold every result, at the
    position of its task, whatever the order of completion was. *)
Lemma fill_valid rs sched :
  valid_schedule (length rs) sched ->
  fill rs sched (replicate (length rs) None) = Some <$> rs.
Proof.
  intros Hp. apply list_eq; intros j. rewrite list_lookup_fmap.
  destruct (rs !! j) as [r|] eqn:Hr; simpl.
  - apply lookup_fill_done; try done.
    + by rewrite length_replicate.
    + unfold valid_schedule in Hp. rewrite Hp. apply NoDup_seq.
    + unfold valid_schedule in Hp. rewrite Hp. apply elem_of_seq.
      apply lookup_lt_Some in Hr. lia.
  - apply lookup_ge_None. rewrite length_fill, length_replicate.
    by apply lookup_ge_None.
Qed.

Lemma read_slots_full rs : read_slots (Some <$> rs) = Some rs.
Proof. unfold read_slots. by apply mapM_fmap_Some. Qed.

(** When every task returns, [complete] performs exactly the slot
    updates of [fill]. *)
Lemma complete_all_return aws rs sched s :
  Forall2 (fun c r => llm_expand c = Returns r) aws rs ->
  fst (complete llm_expand aws sched s)
  = match read_slots (fill rs sched s) with
    | Some results => Some (Returns results)
    | None => None
    end.
Proof.
  intros Hall. revert s; induction sched as [|i sched IH]; intros s;
    cbn [complete fill foldl].
  - done.
  - destruct (aws !! i) as [c|] eqn:Hc.
    + destruct (Forall2_lookup_l _ _ _ _ _ Hall Hc) as (r & Hr & Hret).
      rewrite Hret, Hr.
      specialize (IH (<[i:=Some r]> s)).
      by destruct (complete llm_expand aws sched (<[i:=Some r]> s)).
    + assert (rs !! i = None) as ->; [|apply IH].
      apply lookup_ge_None. rewrite <-(Forall2_length _ _ _ Hall).
      by apply lookup_ge_None.
Qed.

Lemma gather_all_return aws rs sched :
  Forall2 (fun c r => llm_expand c = Returns r) aws rs ->
  valid_schedule (length aws) sched ->
  fst (gather llm_expand sched aws) = Some (Returns rs).
Proof.
  intros Hall Hp. unfold gather.
  pose proof (complete_all_return aws rs sched
                (replicate (length aws) None) Hall) as Hc.
  destruct (complete llm_expand aws sched _) as [res tr]; simpl in *.
  rewrite Hc, (Forall2_length _ _ _ Hall), fill_valid, read_slots_full; [done|].
  by rewrite <-(Forall2_length _ _ _ Hall).
Qed.

(** ** Failures *)

Lemma complete_first_failure aws pre i post s e :
  Forall (returns_at llm_expand aws) pre -> raises_at llm_expand aws i e ->
  fst (complete llm_expand aws (pre ++ i :: post) s) = Some (Raises e).
Proof.
  intros Hpre (c & Hc & He). revert s.
  induction Hpre as [|j pre Hj _ IH]; intros s; cbn [app complete].
  - by rewrite Hc, He.
  - destruct (aws !! j) as [cj|] eqn:Hcj; [|apply IH].
    destruct (Hj cj Hcj) as [r ->].
    specialize (IH (<[j:=Some r]> s)).
    by destruct (complete llm_expand aws (pre ++ i :: post) _).
Qed.

(** A schedule in which some task raises splits at the first one. *)
Lemma first_failure_split aws sched j e :
  j ∈ sched -> raises_at llm_expand aws j e ->
  exists pre i post e',
    sched = pre ++ i :: post /\ Forall (returns_at llm_expand aws) pre /\
    raises_at llm_expand aws i e'.
Proof.
  intros Hj Hraise. induction sched as [|k sched IH].
  - by apply elem_of_nil in Hj.
  - destruct (aws !! k) as [c|] eqn:Hc.
    + destruct (llm_expand c) as [r|e'] eqn:Hk.
      * assert (j ∈ sched) as Hin.
        { apply elem_of_cons in Hj as [->|]; [|done].
          destruct Hraise as (c' & Hc' & He'). congruence. }
        destruct (IH Hin) as (pre & i & post & e2 & -> & Hpre & Hi).
        exists (k :: pre), i, post, e2. split_and!; [done| |done].
        constructor; [|done]. intros c' Hc'. exists r. congruence.
      * exists [], k, sched, e'. split_and!; [done|constructor|].
        by exists c.
    + assert (j ∈ sched) as Hin.
      { apply elem_of_cons in Hj as [->|]; [|done].
        destruct Hraise as (c' & Hc' & _). congruence. }
      destruct (IH Hin) as (pre & i & post & e2 & -> & Hpre & Hi).
      exists (k :: pre), i, post, e2. split_and!; [done| |done].
      constructor; [|done]. intros c' Hc'. congruence.
Qed.

(** ** Traces *)

Lemma complete_trace_done aws sched s :
  Forall is_done (snd (complete llm_expand aws sched s)).
Proof.
  revert s; induction sched as [|i sched IH]; intros s; cbn [complete].
  - constructor.
  - destruct (aws !! i) as [c|]; [|apply IH].
    destruct (llm_expand c) as [r|e].
    + specialize (IH (<[i:=Some r]> s)).
      destruct (complete llm_expand aws sched _) as [res tr]; simpl in *.
      constructor; [by exists i | done].
    + repeat constructor. by exists i.
Qed.

Lemma calls_done tr : Forall is_done tr -> calls tr = [].
Proof. induction 1 as [|ev tr [i ->] _ IH]; [done|]. by simpl. Qed.

Lemma expand_calls_done tr : Forall is_done tr -> expand_calls tr = [].
Proof. induction 1 as [|ev tr [i ->] _ IH]; [done|]. by simpl. Qed.

Lemma gather_trace aws sched :
  exists dones, Forall is_done dones /\
    snd (gather llm_expand sched aws) = map ExpandCall aws ++ dones.
Proof.
  unfold gather.
  pose proof (complete_trace_done aws sched (replicate (length aws) None)).
  destruct (complete llm_expand aws sched _) as [res tr]; simpl in *.
  by exists tr.
Qed.

Lemma calls_starts aws : calls (map ExpandCall aws) = map ExpandCall aws.
Proof. induction aws as [|c aws IH]; [done|]. simpl. by f_equal. Qed.

Lemma expand_calls_starts aws : expand_calls (map ExpandCall aws) = aws.
Proof. induction aws as [|c aws IH]; [done|]. simpl. by f_equal. Qed.

(** With nothing to wait for, [gather] returns the empty list at once. *)
Lemma complete_no_tasks sched :
  complete llm_expand [] sched [] = (Some (Returns []), []).
Proof. induction sched as [|i sched IH]; [done|]. by cbn [complete]. Qed.

End Results.

(** The list comprehension numbers the outline from 1. *)
Lemma tasks_seq query skeleton :
  tasks query skeleton
  = map (expand_subpoint query (subpoints skeleton))
        (seq 1 (length (subpoints skeleton))).
Proof.
  unfold tasks. rewrite (imap_seq_0 (subpoints skeleton)
    (fun i => expand_subpoint query (subpoints skeleton) (i + 1))).
  rewrite <-fmap_S_seq, <-list_fmap_compose.
  apply list_fmap_ext. intros _ i _. simpl. by rewrite Nat.add_1_r.
Qed.

Lemma length_tasks query skeleton :
  length (tasks query skeleton) = length (subpoints skeleton).
Proof. unfold tasks. apply length_imap. Qed.

Section OrchestratorClaims.
Variable exn : Type.
Variable llm_outline : string -> outcome exn Skeleton.
Variable llm_expand : ExpandArgs -> outcome exn CallResponse.

Local Abbreviation run := (skeleton_of_thought llm_outline llm_expand).

(** What one run records once the outline has returned: the outline
    request and its completion, then the expander invocations in outline
    order, then completions only. *)
Lemma run_trace sched query skeleton :
  llm_outline query = Returns skeleton ->
  exists dones, Forall is_done dones /\
    snd (run sched query)
    = OutlineCall query :: OutlineDone
      :: map ExpandCall (tasks query skeleton) ++ dones.
Proof.
  intros Hsk. unfold skeleton_of_thought, break_into_subpoints. rewrite Hsk.
  destruct (gather_trace exn llm_expand (tasks query skeleton) sched)
    as (dones & Hdones & Htr).
  exists dones. split; [done|].
  destruct (gather llm_expand sched _) as [[[results|e]|] tr];
    simpl in *; by rewrite Htr.
Qed.

Lemma run_result sched query skeleton :
  llm_outline query = Returns skeleton ->
  fst (run sched query)
  = match fst (gather llm_expand sched (tasks query skeleton)) with
    | Some (Returns results) =>
        Some (Returns (join newline (map content results)))
    | Some (Raises e) => Some (Raises e)
    | None => None
    end.
Proof.
  intros Hsk. unfold skeleton_of_thought, break_into_subpoints. rewrite Hsk.
  by destruct (gather llm_expand sched _) as [[[results|e]|] tr].
Qed.

Lemma run_all_return sched query skeleton rs :
  llm_outline query = Returns skeleton ->
  valid_schedule (length (subpoints skeleton)) sched ->
  Forall2 (fun c r => llm_expand c = Returns r) (tasks query skeleton) rs ->
  fst (run sched query) = Some (Returns (join newline (map content rs))).
Proof.
  intros Hsk Hsched Hall. rewrite (run_result _ _ _ Hsk).
  rewrite (gather_all_return exn llm_expand (tasks query skeleton) rs);
    [done|done|by rewrite length_tasks].
Qed.

Lemma run_expand_calls sched query skeleton :
  llm_outline query = Returns skeleton ->
  expand_calls (snd (run sched query)) = tasks query skeleton.
Proof.
  intros Hsk. destruct (run_trace sched _ _ Hsk) as (dones & Hdones & ->).
  change (expand_calls (map ExpandCall (tasks query skeleton) ++ dones)
          = tasks query skeleton).
  unfold expand_calls. rewrite omap_app.
  fold (expand_calls (map ExpandCall (tasks query skeleton))).
  fold (expand_calls dones).
  rewrite expand_calls_starts, expand_calls_done by done.
  apply app_nil_r.
Qed.

(** C1. When the outline has N entries and the expansion for point index
    i is [expansion i], the orchestrator returns the N expansions joined
    by newlines in outline order, point 1 first and point N last, for
    every order [sched] in which the N expansion tasks complete. *)
Theorem assembled_in_outline_order sched query skeleton
    (expansion : nat -> CallResponse) :
  llm_outline query = Returns skeleton ->
  valid_schedule (length (subpoints skeleton)) sched ->
  (forall i, 1 <= i <= length (subpoints skeleton) ->
     llm_expand (expand_subpoint query (subpoints skeleton) i)
     = Returns (expansion i)) ->
  fst (run sched query)
  = Some (Returns (join newline
            (map (fun i => content (expansion i))
                 (seq 1 (length (subpoints skeleton)))))).
Proof.
  intros Hsk Hsched Hexp.
  rewrite (run_all_return sched query skeleton
             (map expansion (seq 1 (length (subpoints skeleton)))));
    [by rewrite map_map|done|done|].
  rewrite tasks_seq. apply Forall2_fmap, Forall_Forall2_diag.
  apply Forall_forall. intros i Hi%elem_of_seq. apply Hexp. lia.
Qed.

(** C2. For an outline of N entries the orchestrator issues exactly N
    expander invocations, for the point indices 1, ..., N in this order,
    each with the query, the whole outline and its own index. *)
Theorem one_invocation_per_index sched query skeleton :
  llm_outline query = Returns skeleton ->
  tasks query skeleton
  = map (fun i => {| arg_query := query;
                     arg_skeleton := subpoints skeleton;
                     arg_point_index := i |})
        (seq 1 (length (subpoints skeleton)))
  /\ expand_calls (snd (run sched query)) = tasks query skeleton
  /\ length (expand_calls (snd (run sched query)))
     = length (subpoints skeleton).
Proof.
  intros Hsk. split; [apply tasks_seq|].
  rewrite (run_expand_calls _ _ _ Hsk).
  split; [done | apply length_tasks].
Qed.

(** C4. The outline request is the first thing a run does and it has
    completed before anything else happens; when it fails nothing else
    happens: no expander invocation is issued and the orchestrator
    raises the outline generator's own exception. *)
Theorem outline_failure_stops sched query :
  (exists rest, snd (run sched query)
                = OutlineCall query :: OutlineDone :: rest)
  /\ forall e, llm_outline query = Raises e ->
       run sched query = (Some (Raises e), [OutlineCall query; OutlineDone])
       /\ expand_calls (snd (run sched query)) = [].
Proof.
  split.
  - destruct (llm_outline query) as [skeleton|e] eqn:Hsk.
    + destruct (run_trace sched _ _ Hsk) as (dones & _ & ->). eauto.
    + unfold skeleton_of_thought, break_into_subpoints. rewrite Hsk.
      by exists [].
  - intros e He. unfold skeleton_of_thought, break_into_subpoints.
    by rewrite He.
Qed.

(** C5, as the code has it.  When at least one expansion fails the
    orchestrator raises and returns no text; the exception it raises is
    that of the expansion that is first to fail in completion order,
    unchanged: nothing collects the failures of the others. *)
Theorem first_failure_propagates sched query skeleton :
  llm_outline query = Returns skeleton ->
  valid_schedule (length (subpoints skeleton)) sched ->
  (exists j e, raises_at llm_expand (tasks query skeleton) j e) ->
  exists pre i post e,
    sched = pre ++ i :: post
    /\ Forall (returns_at llm_expand (tasks query skeleton)) pre
    /\ raises_at llm_expand (tasks query skeleton) i e
    /\ fst (run sched query) = Some (Raises e).
Proof.
  intros Hsk Hsched (j & e & Hj).
  assert (j ∈ sched) as Hin.
  { unfold valid_schedule in Hsched. rewrite Hsched. apply elem_of_seq.
    destruct Hj as (c & Hc%lookup_lt_Some & _).
    rewrite length_tasks in Hc. lia. }
  destruct (first_failure_split exn llm_expand _ _ _ _ Hin Hj)
    as (pre & i & post & e' & -> & Hpre & Hi).
  exists pre, i, post, e'. split_and!; try done.
  rewrite (run_result _ _ _ Hsk). unfold gather.
  pose proof (complete_first_failure exn llm_expand (tasks query skeleton)
                pre i post
                (replicate (length (tasks query skeleton)) None) e'
                Hpre Hi) as Hc.
  destruct (complete llm_expand _ _ _) as [res tr]; simpl in *.
  by rewrite Hc.
Qed.

(** C7. Once the outline has N entries, a run makes exactly 1 + N
    requests to the capability: the outline generator's one, then one for
    each of the N expander invocations. *)
Theorem one_plus_n_calls sched query skeleton :
  llm_outline query = Returns skeleton ->
  calls (snd (run sched query))
  = OutlineCall query :: map ExpandCall (tasks query skeleton)
  /\ length (calls (snd (run sched query)))
     = 1 + length (subpoints skeleton).
Proof.
  intros Hsk.
  destruct (run_trace sched _ _ Hsk) as (dones & Hdones & ->).
  assert (calls (OutlineCall query :: OutlineDone
            :: map ExpandCall (tasks query skeleton) ++ dones)
          = OutlineCall query :: map ExpandCall (tasks query skeleton))
    as ->.
  { change (OutlineCall query
              :: calls (map ExpandCall (tasks query skeleton) ++ dones)
            = OutlineCall query :: map ExpandCall (tasks query skeleton)).
    unfold calls. rewrite List.filter_app.
    fold (calls (map ExpandCall (tasks query skeleton))). fold (calls dones).
    rewrite calls_starts, calls_done by done. by rewrite app_nil_r. }
  split; [done|]. simpl. by rewrite length_map, length_tasks.
Qed.

(** C8. An outline without entries is not an error: no expander
    invocation is issued and the orchestrator returns the empty
    string. *)
Theorem empty_outline_returns_empty sched query skeleton :
  llm_outline query = Returns skeleton ->
  subpoints skeleton = [] ->
  run sched query = (Some (Returns ""), [OutlineCall query; OutlineDone])
  /\ expand_calls (snd (run sched query)) = [].
Proof.
  intros Hsk Hnil.
  assert (run sched query
          = (Some (Returns ""), [OutlineCall query; OutlineDone])) as ->.
  { unfold skeleton_of_thought, break_into_subpoints, gather, tasks.
    rewrite Hsk, Hnil. simpl. by rewrite complete_no_tasks. }
  done.
Qed.

(** C3. With an outline generator that returns the two labels
    "Identify distractions" and "Practice mindfulness" and an expander
    that returns "Point <i> expanded." for point index i, the
    orchestrator returns "Point 1 expanded.", a newline, "Point 2
    expanded.", in whichever order the two expansions complete. *)
Theorem structural_test_result sched query :
  llm_outline query = Returns mock_skeleton ->
  (forall a, llm_expand a = Returns (point_text (arg_point_index a))) ->
  valid_schedule 2 sched ->
  fst (run sched query)
  = Some (Returns ("Point 1 expanded." +:+ newline +:+ "Point 2 expanded.")).
Proof.
  intros Hsk Hexp Hsched.
  by rewrite (run_all_return sched query mock_skeleton
                [point_text 1; point_text 2] Hsk Hsched);
    [|repeat constructor; apply Hexp].
Qed.

(** C6, as the code has it.  The outline generator hands on the list of
    labels that the capability's structured response carries, whatever
    its length: nothing checks the 3 to 10 points the prompt asks for.
    The orchestrator operates on it and issues one expansion for each
    entry, be there none or more than ten. *)
Theorem outline_length_unchecked sched query labels :
  llm_outline query = Returns {| subpoints := labels |} ->
  fst (break_into_subpoints llm_outline query)
  = Returns {| subpoints := labels |}
  /\ length (expand_calls (snd (run sched query))) = length labels.
Proof.
  intros Hsk. split; [done|].
  by rewrite (run_expand_calls _ _ _ Hsk), length_tasks.
Qed.

End OrchestratorClaims.

(** ** The claims that the code does not meet *)

(** C5 as stated fails.  Both expansions fail and complete in outline
    order: the orchestrator raises the first failure alone, exactly as it
    does when the second expansion succeeds, so no reading of the raised
    exception gives the failures that occurred. *)
Lemma failures_not_aggregated :
  fst (skeleton_of_thought mock_outline failing_expand [0; 1] "q")
  = Some (Raises "expansion 1 failed")
  /\ raises_at failing_expand (tasks "q" mock_skeleton) 1 "expansion 2 failed"
  /\ fst (skeleton_of_thought mock_outline first_failing_expand [0; 1] "q")
     = Some (Raises "expansion 1 failed")
  /\ ~ exists failures_of,
         aggregates_failures mock_outline failing_expand failures_of
           [0; 1] "q"
         /\ aggregates_failures mock_outline first_failing_expand failures_of
              [0; 1] "q".
Proof.
  split_and!; [done|by eexists|done|].
  intros (failures_of & Hall & Hfirst).
  destruct (Hall mock_skeleton eq_refl) as (err & Herr & Hagg).
  { exists 0, "expansion 1 failed". by eexists. }
  destruct (Hfirst mock_skeleton eq_refl) as (err' & Herr' & Hagg').
  { exists 0, "expansion 1 failed". by eexists. }
  assert (err = "expansion 1 failed") as -> by (by injection Herr).
  assert (err' = "expansion 1 failed") as -> by (by injection Herr').
  assert ("expansion 2 failed" ∈ failures_of "expansion 1 failed") as Hin.
  { apply Hagg. exists 1. by eexists. }
  apply Hagg' in Hin as (j & c & Hc & He).
  destruct j as [|[|j]]; simpl in Hc; [| |done].
  - injection Hc as <-. discriminate He.
  - injection Hc as <-. discriminate He.
Qed.

(** C6 as stated fails.  An outline generator may return no label at
    all, or eleven; the orchestrator operates on either. *)
Lemma outline_bound_not_enforced :
  fst (break_into_subpoints empty_outline "q") = Returns {| subpoints := [] |}
  /\ ~ outline_bounded {| subpoints := [] |}
  /\ fst (skeleton_of_thought empty_outline mock_expand [] "q")
     = Some (Returns "")
  /\ (exists skeleton,
        fst (break_into_subpoints long_outline "q") = Returns skeleton
        /\ ~ outline_bounded skeleton
        /\ length (expand_calls
                     (snd (skeleton_of_thought long_outline mock_expand
                             (seq 0 11) "q"))) = 11)
  /\ ~ (forall (llm_outline : string -> outcome string Skeleton) query
               skeleton,
          fst (break_into_subpoints llm_outline query) = Returns skeleton ->
          outline_bounded skeleton).
Proof.
  split_and!.
  - done.
  - unfold outline_bounded. simpl. lia.
  - done.
  - eexists. split_and!; [done| |done]. unfold outline_bounded. simpl. lia.
  - intros Hclaim. specialize (Hclaim empty_outline "q" _ eq_refl).
    unfold outline_bounded in Hclaim. simpl in Hclaim. lia.
Qed.

(** ** Instances *)

Lemma assembled_in_outline_order_reversed :
  valid_schedule 2 [1; 0]
  /\ fst (skeleton_of_thought mock_outline mock_expand [1; 0]
            "How can I improve my focus?")
     = Some (Returns ("Point 1 expanded." +:+ newline
                      +:+ "Point 2 expanded.")).
Proof.
  split; [apply perm_swap|].
  apply (assembled_in_outline_order string mock_outline mock_expand [1; 0]
           "How can I improve my focus?" mock_skeleton point_text).
  - reflexivity.
  - apply perm_swap.
  - intros i _. reflexivity.
Defined.

Lemma one_invocation_per_index_mock :
  expand_calls (snd (skeleton_of_thought mock_outline mock_expand [1; 0]
                       "How can I improve my focus?"))
  = [expand_subpoint "How can I improve my focus?"
       (subpoints mock_skeleton) 1;
     expand_subpoint "How can I improve my focus?"
       (subpoints mock_skeleton) 2].
Proof.
  destruct (one_invocation_per_index string mock_outline mock_expand [1; 0]
              "How can I improve my focus?" mock_skeleton eq_refl)
    as (_ & Hcalls & _).
  exact Hcalls.
Defined.

Lemma structural_test_result_mock :
  fst (skeleton_of_thought mock_outline mock_expand [0; 1]
         "How can I improve my focus?")
  = Some (Returns ("Point 1 expanded." +:+ newline +:+ "Point 2 expanded.")).
Proof.
  apply (structural_test_result string mock_outline mock_expand [0; 1]
           "How can I improve my focus?").
  - reflexivity.
  - intros a. reflexivity.
  - unfold valid_schedule. simpl. reflexivity.
Defined.

Lemma outline_failure_stops_mock :
  skeleton_of_thought failing_outline mock_expand [] "q"
  = (Some (Raises "outline failed"), [OutlineCall "q"; OutlineDone])
  /\ expand_calls (snd (skeleton_of_thought failing_outline mock_expand []
                          "q")) = [].
Proof.
  destruct (outline_failure_stops string failing_outline mock_expand [] "q")
    as [_ Hfail].
  apply (Hfail "outline failed"). reflexivity.
Defined.

Lemma first_failure_propagates_reversed :
  exists pre i post e,
    [1; 0] = pre ++ i :: post
    /\ Forall (returns_at failing_expand (tasks "q" mock_skeleton)) pre
    /\ raises_at failing_expand (tasks "q" mock_skeleton) i e
    /\ fst (skeleton_of_thought mock_outline failing_expand [1; 0] "q")
       = Some (Raises e).
Proof.
  apply (first_failure_propagates string mock_outline failing_expand [1; 0]
           "q" mock_skeleton).
  - reflexivity.
  - apply perm_swap.
  - exists 0, "expansion 1 failed". eexists. split; reflexivity.
Defined.

Lemma one_plus_n_calls_mock :
  length (calls (snd (skeleton_of_thought mock_outline mock_expand [1; 0]
                        "q"))) = 3.
Proof.
  destruct (one_plus_n_calls string mock_outline mock_expand [1; 0] "q"
              mock_skeleton eq_refl) as [_ Hlen].
  exact Hlen.
Defined.

Lemma empty_outline_returns_empty_mock :
  skeleton_of_thought empty_outline mock_expand [] "q"
  = (Some (Returns ""), [OutlineCall "q"; OutlineDone])
  /\ expand_calls (snd (skeleton_of_thought empty_outline mock_expand []
                          "q")) = [].
Proof.
  apply (empty_outline_returns_empty string empty_outline mock_expand [] "q"
           {| subpoints := [] |}); reflexivity.
Defined.

Lemma outline_length_unchecked_long :
  fst (break_into_subpoints long_outline "q")
  = Returns {| subpoints := replicate 11 "Get enough sleep" |}
  /\ length (expand_calls (snd (skeleton_of_thought long_outline mock_expand
                                  (seq 0 11) "q")))
     = length (replicate 11 "Get enough sleep").
Proof.
  apply (outline_length_unchecked string long_outline mock_expand (seq 0 11)
           "q" (replicate 11 "Get enough sleep")).
  reflexivity.
Defined.

(** ** Further properties of the orchestrator *)

Lemma count_char_app c s1 s2 :
  count_char c (s1 +:+ s2) = count_char c s1 + count_char c s2.
Proof. induction s1 as [|a s1 IH]; simpl; [done | rewrite IH; lia]. Qed.

(** [join] puts one separator between neighbours and none at the ends. *)
Lemma count_char_join c sep parts :
  count_char c (join sep parts)
  = list_sum (map (count_char c) parts)
    + (length parts - 1) * count_char c sep.
Proof.
  induction parts as [|p [|p' parts] IH]; [done|simpl; lia|].
  change (join sep (p :: p' :: parts))
    with (p +:+ sep +:+ join sep (p' :: parts)).
  rewrite !count_char_app, IH. simpl. lia.
Qed.

Section OrchestratorExtras.
Variable exn : Type.
Variable llm_outline : string -> outcome exn Skeleton.
Variable llm_expand : ExpandArgs -> outcome exn CallResponse.

Local Abbreviation run := (skeleton_of_thought llm_outline llm_expand).

(** X1. When one expansion fails and all the others return, the
    orchestrator raises the exception of that expansion, in whichever
    order the expansions complete. *)
Theorem single_failure_any_order sched query skeleton i e :
  llm_outline query = Returns skeleton ->
  valid_schedule (length (subpoints skeleton)) sched ->
  raises_at llm_expand (tasks query skeleton) i e ->
  (forall j, j <> i -> returns_at llm_expand (tasks query skeleton) j) ->
  fst (run sched query) = Some (Raises e).
Proof.
  intros Hsk Hsched Hi Hothers.
  assert (i ∈ sched) as Hin.
  { unfold valid_schedule in Hsched. rewrite Hsched. apply elem_of_seq.
    destruct Hi as (c & Hc%lookup_lt_Some & _).
    rewrite length_tasks in Hc. lia. }
  destruct (first_failure_split exn llm_expand _ _ _ _ Hin Hi)
    as (pre & k & post & e' & -> & Hpre & Hk).
  assert (k = i) as ->.
  { destruct (decide (k = i)) as [|Hne]; [done|].
    destruct Hk as (c & Hc & He'). destruct (Hothers k Hne c Hc) as [r Hr].
    congruence. }
  assert (e' = e) as ->.
  { destruct Hk as (c & Hc & He'), Hi as (c' & Hc' & He). congruence. }
  rewrite (run_result _ _ _ _ _ _ Hsk). unfold gather.
  pose proof (complete_first_failure exn llm_expand (tasks query skeleton)
                pre i post
                (replicate (length (tasks query skeleton)) None) e
                Hpre Hk) as Hc.
  destruct (complete llm_expand _ _ _) as [res tr]; simpl in *.
  by rewrite Hc.
Qed.

(** X2. The orchestrator returns nothing while an expansion is pending:
    as long as the completions so far leave out some task, there is no
    result, even though every expansion is going to return. *)
Theorem no_result_while_pending sched query skeleton rs j :
  llm_outline query = Returns skeleton ->
  Forall2 (fun c r => llm_expand c = Returns r) (tasks query skeleton) rs ->
  j < length (subpoints skeleton) ->
  j ∉ sched ->
  fst (run sched query) = None.
Proof.
  intros Hsk Hall Hj Hpending.
  rewrite (run_result _ _ _ _ _ _ Hsk). unfold gather.
  pose proof (complete_all_return exn llm_expand (tasks query skeleton) rs
                sched (replicate (length (tasks query skeleton)) None) Hall)
    as Hc.
  destruct (complete llm_expand _ _ _) as [res tr]; simpl in *.
  rewrite Hc.
  assert (read_slots (fill rs sched
            (replicate (length (tasks query skeleton)) None)) = None) as ->;
    [|done].
  unfold read_slots. apply mapM_None, Exists_exists.
  exists None. split; [|done].
  apply list_elem_of_lookup. exists j.
  rewrite lookup_fill_other by done.
  apply lookup_replicate_2. by rewrite length_tasks.
Qed.

(** X3. When no expansion contains a line break, the text assembled from
    an outline of N >= 1 entries has exactly N - 1 line breaks: one line
    for each entry, nothing before the first or after the last. *)
Theorem one_line_per_entry sched query skeleton
    (expansion : nat -> CallResponse) :
  llm_outline query = Returns skeleton ->
  valid_schedule (length (subpoints skeleton)) sched ->
  (forall i, 1 <= i <= length (subpoints skeleton) ->
     llm_expand (expand_subpoint query (subpoints skeleton) i)
     = Returns (expansion i)
     /\ count_char newline_char (content (expansion i)) = 0) ->
  exists text,
    fst (run sched query) = Some (Returns text)
    /\ count_char newline_char text = length (subpoints skeleton) - 1.
Proof.
  intros Hsk Hsched Hexp.
  set (n := length (subpoints skeleton)) in *.
  exists (join newline (map content (map expansion (seq 1 n)))). split.
  - apply (run_all_return exn llm_outline llm_expand sched query skeleton);
      [done|done|].
    rewrite tasks_seq. apply Forall2_fmap, Forall_Forall2_diag.
    apply Forall_forall. intros i Hi%elem_of_seq. apply Hexp. lia.
  - rewrite count_char_join, !length_map, length_seq.
    assert (list_sum (map (count_char newline_char)
                        (map content (map expansion (seq 1 n)))) = 0) as ->.
    { assert (forall i, i ∈ seq 1 n ->
                count_char newline_char (content (expansion i)) = 0) as Hz.
      { intros i Hi%elem_of_seq. apply Hexp. lia. }
      induction (seq 1 n) as [|i l IH]; [done|]. simpl.
      rewrite Hz by (apply elem_of_cons; by left).
      apply IH. intros k Hk. apply Hz. apply elem_of_cons. by right. }
    simpl. lia.
Qed.

End OrchestratorExtras.

Lemma single_failure_any_order_demo :
  fst (skeleton_of_thought mock_outline first_failing_expand [1; 0] "q")
  = Some (Raises "expansion 1 failed").
Proof.
  apply (single_failure_any_order string mock_outline first_failing_expand
           [1; 0] "q" mock_skeleton 0 "expansion 1 failed").
  - reflexivity.
  - apply perm_swap.
  - eexists. split; reflexivity.
  - intros [|[|j]] Hj c Hc; [done| |done].
    injection Hc as <-. eexists. reflexivity.
Defined.

Lemma no_result_while_pending_demo :
  fst (skeleton_of_thought mock_outline mock_expand [1] "q") = None.
Proof.
  apply (no_result_while_pending string mock_outline mock_expand [1] "q"
           mock_skeleton [point_text 1; point_text 2] 0).
  - reflexivity.
  - repeat constructor.
  - simpl. lia.
  - intros Hin. apply list_elem_of_singleton in Hin. discriminate Hin.
Defined.

Lemma one_line_per_entry_demo :
  exists text,
    fst (skeleton_of_thought mock_outline mock_expand [1; 0] "q")
    = Some (Returns text)
    /\ count_char newline_char text = 1.
Proof.
  apply (one_line_per_entry string mock_outline mock_expand [1; 0] "q"
           mock_skeleton point_text).
  - reflexivity.
  - apply perm_swap.
  - intros i [Hlo Hhi]. simpl in Hhi. split; [reflexivity|].
    destruct i as [|[|[|i]]]; [lia|reflexivity|reflexivity|lia].
Defined.

End SkeletonOfThoughtSpec.

(** * Properties of the code-snippet checkers *)
Module DocAgentEvalSpec.
Import DocAgentEval.

(** ** The traversal *)

Lemma sum_size_aliases names : list_sum (map size (map Alias names)) = length names.
Proof. induction names as [|a names IH]; simpl; [done | by rewrite IH]. Qed.

Lemma size_children n : size n = S (list_sum (map size (iter_child_nodes n))).
Proof. destruct n; simpl; by rewrite ?sum_size_aliases. Qed.

Lemma walk_queue_cons steps n todo :
  walk_queue (S steps) (n :: todo)
  = n :: walk_queue steps (todo ++ iter_child_nodes n).
Proof. reflexivity. Qed.

(** [size] steps are enough: every node of the queue, and of the
    subtrees below, is yielded. *)
Lemma length_walk_queue steps todo :
  list_sum (map size todo) <= steps ->
  length (walk_queue steps todo) = list_sum (map size todo).
Proof.
  revert todo; induction steps as [|steps IH]; intros [|n todo] Hle; simpl in *.
  - done.
  - rewrite size_children in Hle. lia.
  - done.
  - rewrite IH; rewrite map_app, list_sum_app, size_children in *; lia.
Qed.

Lemma length_walk tree : length (walk tree) = size tree.
Proof.
  unfold walk. rewrite length_walk_queue; simpl; lia.
Qed.

Example walk_import_line :
  walk (Node "Module" [Import [plain "math"; plain "non_existent_module"]])
  = [Node "Module" [Import [plain "math"; plain "non_existent_module"]];
     Import [plain "math"; plain "non_existent_module"];
     Alias (plain "math"); Alias (plain "non_existent_module")].
Proof. reflexivity. Qed.

(** The cases of [test_is_importable] and [test_check_syntax] that the
    small interpreter covers. *)
Example test_is_importable_missing_module :
  fst (demo_is_importable "import non_existent_module" start) = Returns false.
Proof. reflexivity. Qed.

Example test_is_importable_missing_attribute :
  fst (demo_is_importable "from os import path, nonexistent_function" start)
  = Returns false.
Proof. reflexivity. Qed.

Example is_importable_no_import :
  demo_is_importable "print('Hello, World!')" start = (Returns true, start).
Proof. reflexivity. Qed.

Example test_check_syntax_valid :
  check_syntax demo_compile "print('Hello, World!')" start
  = (Returns true, start).
Proof. reflexivity. Qed.

Example test_check_syntax_invalid :
  check_syntax demo_compile "print('Hello, World!'" start
  = (Returns false,
     {| py := tt;
        stdout := ["Syntax error: '(' was never closed (<string>, line 1)"] |}).
Proof. reflexivity. Qed.

Section CheckerClaims.
Variable interp : Type.
Variable compile : string -> outcome exception unit.
Variable ast_parse : string -> outcome exception node.
Variable module_spec : Type.
Variable module_obj : Type.
Variable find_spec : option string -> M interp (option module_spec).
Variable module_from_spec : module_spec -> M interp module_obj.
Variable has_loader : module_spec -> bool.
Variable exec_module : module_spec -> module_obj -> M interp unit.
Variable hasattr : module_obj -> string -> M interp bool.

Local Abbreviation is_importable' :=
  (is_importable ast_parse find_spec module_from_spec has_loader exec_module
     hasattr).
Local Abbreviation check_nodes' :=
  (check_nodes find_spec module_from_spec has_loader exec_module hasattr).
Local Abbreviation check_node' :=
  (check_node find_spec module_from_spec has_loader exec_module hasattr).

(** One turn of the loop of [is_importable]. *)
Lemma check_nodes_cons n nodes st :
  check_nodes' (n :: nodes) st
  = match check_node' n st with
    | (Returns true, st') => check_nodes' nodes st'
    | (Returns false, st') => (Returns false, st')
    | (Raises e, st') => (Raises e, st')
    end.
Proof.
  cbn [check_nodes]. unfold mbind, M_bind, bind.
  by destruct (check_node' n st) as [[[|]|e] st'].
Qed.

Lemma check_module_found module_name st sp st' :
  find_spec module_name st = (Returns (Some sp), st') ->
  check_module find_spec module_name st = (Returns true, st').
Proof.
  intros Hspec. unfold check_module, try_except, mbind, M_bind, bind.
  by rewrite Hspec.
Qed.

(** Only the import statements met on the walk bear on the verdict. *)
Lemma check_nodes_imports_only nodes st :
  check_nodes' nodes st = check_nodes' (List.filter is_import nodes) st.
Proof.
  revert st; induction nodes as [|n nodes IH]; intros st; [done|].
  destruct n; cbn [List.filter is_import]; rewrite ?check_nodes_cons;
    try apply IH.
  - destruct (check_node' _ st) as [[[|]|e] st']; [apply IH|done..].
  - destruct (check_node' _ st) as [[[|]|e] st']; [apply IH|done..].
Qed.

(** Alias nodes are walked over and leave the verdict open. *)
Lemma check_nodes_aliases steps names st :
  check_nodes' (walk_queue steps (map Alias names)) st = (Returns true, st).
Proof.
  revert names; induction steps as [|steps IH]; intros [|a names]; try done.
  cbn [map]. rewrite walk_queue_cons. cbn [iter_child_nodes].
  rewrite app_nil_r, check_nodes_cons. apply IH.
Qed.

(** An exception that is no [SyntaxError] is not handled by either
    checker. *)
Lemma other_exception_propagates code_string e st :
  caught_by [SyntaxError] e = false ->
  (compile code_string = Raises e ->
   check_syntax compile code_string st = (Raises e, st))
  /\ (ast_parse code_string = Raises e ->
      is_importable' code_string st = (Raises e, st)).
Proof.
  intros Hother. split; intros He.
  - unfold check_syntax, try_except, mbind, M_bind, bind. by rewrite He, Hother.
  - unfold is_importable. by rewrite He, Hother.
Qed.

(** C9, as the code has it.  Each checker goes by its own parser call.
    When that call rejects the string with a [SyntaxError] (or a
    subclass of it), the checker returns [False] and raises nothing:
    [check_syntax] catches the error of [compile], prints it and returns
    [False]; [is_importable] catches the error of [ast.parse] and returns
    [False] without looking at any module. *)
Theorem syntax_error_returns_false code_string st :
  (forall e, caught_by [SyntaxError] e = true ->
     compile code_string = Raises e ->
     check_syntax compile code_string st
     = (Returns false,
        {| py := py st;
           stdout := stdout st ++ ["Syntax error: " +:+ exc_str e] |}))
  /\ (forall e, caught_by [SyntaxError] e = true ->
        ast_parse code_string = Raises e ->
        is_importable' code_string st = (Returns false, st)).
Proof.
  split; intros e Hsyn He.
  - unfold check_syntax, try_except, mbind, M_bind, bind. by rewrite He, Hsyn.
  - unfold is_importable. by rewrite He, Hsyn.
Qed.

(** C10. Of a plain [import] statement only the first name is looked at:
    the turn of the loop for it is the module check of that name.  So a
    string that is one [import] statement whose first module is found is
    judged importable, whatever the names after it are. *)
Theorem import_checks_first_name_only code_string cls first rest st sp st' :
  ast_parse code_string = Returns (Node cls [Import (first :: rest)]) ->
  find_spec (Some (name first)) st = (Returns (Some sp), st') ->
  check_node' (Import (first :: rest))
  = check_module find_spec (Some (name first))
  /\ is_importable' code_string st = (Returns true, st').
Proof.
  intros Hparse Hspec. split; [done|].
  unfold is_importable. rewrite Hparse.
  unfold walk.
  assert (size (Node cls [Import (first :: rest)])
          = S (S (S (length rest)))) as -> by (simpl; lia).
  rewrite walk_queue_cons. cbn [app iter_child_nodes].
  rewrite walk_queue_cons. cbn [app iter_child_nodes].
  rewrite check_nodes_cons. cbn [check_node]. unfold mret, M_ret, ret.
  rewrite check_nodes_cons. cbn [check_node].
  rewrite (check_module_found _ _ _ _ Hspec).
  apply check_nodes_aliases.
Qed.

End CheckerClaims.

(** ** Instances *)

(** C9 as stated fails.  The string "return 1" is rejected by [compile]
    with a [SyntaxError], so [check_syntax] answers [False]; [ast.parse]
    accepts it and it holds no import, so [is_importable] answers
    [True].  A string that is not valid Python does not make both
    checkers answer [False]. *)
Lemma rejected_string_judged_importable :
  check_syntax return_compile "return 1" start
  = (Returns false,
     {| py := tt;
        stdout :=
          ["Syntax error: 'return' outside function (<string>, line 1)"] |})
  /\ is_importable return_parse demo_find_spec demo_module_from_spec
       demo_has_loader demo_exec_module demo_hasattr "return 1" start
     = (Returns true, start)
  /\ ~ (forall code_string st,
          (exists e, return_compile code_string = Raises e
                     /\ caught_by [SyntaxError] e = true) ->
          (exists st', check_syntax return_compile code_string st
                       = (Returns false, st'))
          /\ (exists st', is_importable return_parse demo_find_spec
                            demo_module_from_spec demo_has_loader
                            demo_exec_module demo_hasattr code_string st
                          = (Returns false, st'))).
Proof.
  split_and!; [done|done|].
  intros Hclaim.
  destruct (Hclaim "return 1" start) as [_ (st' & Himp)].
  { eexists. split; reflexivity. }
  discriminate Himp.
Qed.

Lemma syntax_error_returns_false_demo :
  check_syntax demo_compile "print('Hello, World!'" start
  = (Returns false,
     {| py := tt;
        stdout := ["Syntax error: '(' was never closed (<string>, line 1)"] |})
  /\ demo_is_importable "print('Hello, World!'" start = (Returns false, start).
Proof.
  destruct (syntax_error_returns_false unit demo_compile demo_parse string
              string demo_find_spec demo_module_from_spec demo_has_loader
              demo_exec_module demo_hasattr "print('Hello, World!'" start)
    as [Hcompile Hparse].
  split.
  - apply (Hcompile {| exc_type := SyntaxError;
                       exc_str := "'(' was never closed (<string>, line 1)" |});
      reflexivity.
  - apply (Hparse {| exc_type := SyntaxError;
                     exc_str := "'(' was never closed (<unknown>, line 1)" |});
      reflexivity.
Defined.

Lemma import_checks_first_name_only_demo :
  demo_is_importable "import math, non_existent_module" start
  = (Returns true, start)
  /\ fst (demo_is_importable "import non_existent_module" start)
     = Returns false.
Proof.
  split; [|reflexivity].
  apply (import_checks_first_name_only unit demo_parse string string
           demo_find_spec demo_module_from_spec demo_has_loader
           demo_exec_module demo_hasattr "import math, non_existent_module"
           "Module" (plain "math") [plain "non_existent_module"] start
           "math" start); reflexivity.
Defined.

(** ** Further properties of the checkers *)

Lemma size_pos n : 1 <= size n.
Proof. destruct n; simpl; lia. Qed.

Lemma descendant_inv x n :
  descendant x n <->
  x = n \/ exists c, c ∈ iter_child_nodes n /\ descendant x c.
Proof.
  split.
  - intros [|m c Hc Hx]; [by left | right; eauto].
  - intros [->|(c & Hc & Hx)]; [constructor | by econstructor].
Qed.

Lemma walk_queue_elem steps todo x :
  list_sum (map size todo) <= steps ->
  x ∈ walk_queue steps todo <-> exists m, m ∈ todo /\ descendant x m.
Proof.
  revert todo; induction steps as [|steps IH]; intros [|n todo] Hle.
  - split; [by intros ?%elem_of_nil | by intros (m & ?%elem_of_nil & _)].
  - simpl in Hle. pose proof (size_pos n). lia.
  - split; [by intros ?%elem_of_nil | by intros (m & ?%elem_of_nil & _)].
  - rewrite walk_queue_cons, elem_of_cons, IH.
    2:{ simpl in Hle. rewrite size_children in Hle.
        rewrite map_app, list_sum_app. lia. }
    split.
    + intros [->|(m & [Hm|Hm]%elem_of_app & Hx)].
      * exists n. split; [apply elem_of_cons; by left | constructor].
      * exists m. split; [apply elem_of_cons; by right | done].
      * exists n. split; [apply elem_of_cons; by left | by econstructor].
    + intros (m & [->|Hm]%elem_of_cons & Hx).
      * apply descendant_inv in Hx as [->|(c & Hc & Hx)]; [by left|].
        right. exists c. split; [apply elem_of_app; by right | done].
      * right. exists m. split; [apply elem_of_app; by left | done].
Qed.

Lemma elem_of_walk tree x : x ∈ walk tree <-> descendant x tree.
Proof.
  unfold walk. rewrite walk_queue_elem by (simpl; lia). split.
  - by intros (m & ->%list_elem_of_singleton & Hx).
  - intros Hx. exists tree. by rewrite list_elem_of_singleton.
Qed.

(** X4. [ast.walk] starts with the root and yields exactly the nodes of
    the tree: a node is yielded if and only if it is the root or lies
    below it. *)
Theorem walk_yields_the_tree tree :
  head (walk tree) = Some tree
  /\ forall x, x ∈ walk tree <-> descendant x tree.
Proof.
  split.
  - unfold walk. destruct tree; reflexivity.
  - intros x. apply elem_of_walk.
Qed.

Section CheckerExtras.
Variable interp : Type.
Variable compile : string -> outcome exception unit.
Variable ast_parse : string -> outcome exception node.
Variable module_spec : Type.
Variable module_obj : Type.
Variable find_spec : option string -> M interp (option module_spec).
Variable module_from_spec : module_spec -> M interp module_obj.
Variable has_loader : module_spec -> bool.
Variable exec_module : module_spec -> module_obj -> M interp unit.
Variable hasattr : module_obj -> string -> M interp bool.

Local Abbreviation is_importable' :=
  (is_importable ast_parse find_spec module_from_spec has_loader exec_module
     hasattr).
Local Abbreviation check_nodes' :=
  (check_nodes find_spec module_from_spec has_loader exec_module hasattr).
Local Abbreviation check_node' :=
  (check_node find_spec module_from_spec has_loader exec_module hasattr).
Local Abbreviation check_attribute' :=
  (check_attribute find_spec module_from_spec has_loader exec_module hasattr).
Local Abbreviation check_attributes' :=
  (check_attributes find_spec module_from_spec has_loader exec_module
     hasattr).
Local Abbreviation test_documentation_agent' :=
  (test_documentation_agent compile ast_parse find_spec module_from_spec
     has_loader exec_module hasattr).

(** X5. [check_module] answers [True] exactly when [find_spec] returned a
    spec, and [False] when it returned [None] or raised an [ImportError],
    [AttributeError] or [ValueError]; only an exception outside these
    classes, raised by [find_spec], leaves it. *)
Theorem check_module_outcomes module_name st :
  match check_module find_spec module_name st with
  | (Returns b, st') =>
      (b = true <->
       exists sp, find_spec module_name st = (Returns (Some sp), st'))
      /\ (b = false ->
          find_spec module_name st = (Returns None, st')
          \/ exists e, find_spec module_name st = (Raises e, st')
                       /\ caught_by [ImportError; AttributeError; ValueError]
                            e = true)
  | (Raises e, st') =>
      caught_by [ImportError; AttributeError; ValueError] e = false
      /\ find_spec module_name st = (Raises e, st')
  end.
Proof.
  unfold check_module, try_except, mbind, M_bind, bind.
  destruct (find_spec module_name st) as [[[sp|]|e] st'] eqn:Hfs.
  - split; [|done]. split; [eauto|done].
  - split; [|by left]. split; [done|]. by intros (sp & [=]).
  - destruct (caught_by [ImportError; AttributeError; ValueError] e) eqn:Hc.
    + split; [|right; eauto]. split; [done|]. by intros (sp & [=]).
    + done.
Qed.

(** X6. The two helpers differ on a [ValueError]: when [find_spec]
    raises one (or a [UnicodeError]), [check_module] answers [False]
    while [check_attribute] lets the exception through. *)
Theorem value_error_not_caught_by_check_attribute
    module_name attribute e st st' :
  find_spec module_name st = (Raises e, st') ->
  issubclass (exc_type e) ValueError = true ->
  check_module find_spec module_name st = (Returns false, st')
  /\ check_attribute' module_name attribute st = (Raises e, st').
Proof.
  intros Hfs Hval.
  unfold check_module, check_attribute, try_except, mbind, M_bind, bind.
  rewrite Hfs. unfold caught_by.
  destruct e as [[] msg]; simpl in *; try discriminate Hval; done.
Qed.

(** X9. The test of a code answer checks nothing unless the answer is
    classified as "code".  When it is and [compile] rejects the content
    with a [SyntaxError], the test fails with [AssertionError] after
    printing the error, and [is_importable] is not called: no module is
    looked up or executed. *)
Theorem test_documentation_agent_short_circuits response st :
  (classification response <> "code" ->
   test_documentation_agent' response st = (Returns tt, st))
  /\ (forall e,
        classification response = "code" ->
        compile (content response) = Raises e ->
        caught_by [SyntaxError] e = true ->
        test_documentation_agent' response st
        = (Raises AssertionError,
           {| py := py st;
              stdout := stdout st ++ ["Syntax error: " +:+ exc_str e] |})).
Proof.
  unfold test_documentation_agent. split.
  - intros Hother. by rewrite decide_False.
  - intros e Hcode Hc Hsyn. rewrite decide_True by done.
    unfold check_syntax, try_except, mbind, M_bind, bind.
    by rewrite Hc, Hsyn.
Qed.

(** The loop over two stretches of nodes is the loop over the first,
    followed, when that one has not returned [False], by the loop over
    the second. *)
Lemma check_nodes_app nodes1 nodes2 st :
  check_nodes' (nodes1 ++ nodes2) st
  = match check_nodes' nodes1 st with
    | (Returns true, st') => check_nodes' nodes2 st'
    | other => other
    end.
Proof.
  revert st; induction nodes1 as [|n nodes1 IH]; intros st; [done|].
  rewrite <-app_comm_cons, !check_nodes_cons.
  destruct (check_node' n st) as [[[|]|e] st']; [apply IH|done..].
Qed.

(** X10. [is_importable] stops at the first import statement that is not
    in order: when the nodes walked before it pass and it fails, the
    answer is [False] and the state is the one that check left; nothing
    that comes later in the walk is looked up or executed. *)
Theorem is_importable_stops_at_first_failure
    code_string tree before n after st st1 st2 :
  ast_parse code_string = Returns tree ->
  walk tree = before ++ n :: after ->
  check_nodes' before st = (Returns true, st1) ->
  check_node' n st1 = (Returns false, st2) ->
  is_importable' code_string st = (Returns false, st2).
Proof.
  intros Hparse Hwalk Hbefore Hn. unfold is_importable.
  by rewrite Hparse, Hwalk, check_nodes_app, Hbefore, check_nodes_cons, Hn.
Qed.

(** X11. A string that parses and holds no import statement is judged
    importable whatever the import system would do: nothing is looked
    up, and the state is left as it was. *)
Theorem no_import_is_importable code_string tree st :
  ast_parse code_string = Returns tree ->
  (forall x, descendant x tree -> is_import x = false) ->
  is_importable' code_string st = (Returns true, st).
Proof.
  intros Hparse Hnone. unfold is_importable. rewrite Hparse.
  rewrite check_nodes_imports_only.
  assert (List.filter is_import (walk tree) = []) as ->; [|done].
  assert (forall x, x ∈ walk tree -> is_import x = false) as Hall.
  { intros x Hx%elem_of_walk. by apply Hnone. }
  induction (walk tree) as [|x l IH]; [done|]. simpl.
  rewrite (Hall x) by (apply elem_of_cons; by left).
  apply IH. intros y Hy. apply Hall, elem_of_cons. by right.
Qed.

End CheckerExtras.

(** ** The verdict in an environment that answers the same every time *)
Section PureEnvironment.
Variable interp : Type.
Variable ast_parse : string -> outcome exception node.
Variable module_spec : Type.
Variable module_obj : Type.
Variable find_spec : option string -> M interp (option module_spec).
Variable module_from_spec : module_spec -> M interp module_obj.
Variable has_loader : module_spec -> bool.
Variable exec_module : module_spec -> module_obj -> M interp unit.
Variable hasattr : module_obj -> string -> M interp bool.

(** Looking a module up, loading and running it change nothing and
    always give the same answer; [find_spec] raises only what
    [check_module] handles. *)
Variable spec_res : option string -> outcome exception (option module_spec).
Variable mod_of : module_spec -> module_obj.
Variable attr : module_obj -> string -> bool.
Hypothesis find_spec_pure : forall m st, find_spec m st = (spec_res m, st).
Hypothesis find_spec_errors :
  forall m e, spec_res m = Raises e ->
    caught_by [ImportError; AttributeError; ValueError] e = true.
Hypothesis module_from_spec_pure :
  forall sp st, module_from_spec sp st = (Returns (mod_of sp), st).
Hypothesis exec_module_pure :
  forall sp md st, exec_module sp md st = (Returns tt, st).
Hypothesis hasattr_pure :
  forall md a st, hasattr md a st = (Returns (attr md a), st).

Local Abbreviation is_importable' :=
  (is_importable ast_parse find_spec module_from_spec has_loader exec_module
     hasattr).
Local Abbreviation check_nodes' :=
  (check_nodes find_spec module_from_spec has_loader exec_module hasattr).
Local Abbreviation check_node' :=
  (check_node find_spec module_from_spec has_loader exec_module hasattr).
Local Abbreviation check_attribute' :=
  (check_attribute find_spec module_from_spec has_loader exec_module hasattr).
Local Abbreviation check_attributes' :=
  (check_attributes find_spec module_from_spec has_loader exec_module
     hasattr).
Local Abbreviation ok := (import_ok spec_res mod_of attr).

Lemma check_module_pure m st :
  exists b, check_module find_spec m st = (Returns b, st)
            /\ (b = true <-> exists sp, spec_res m = Returns (Some sp)).
Proof.
  unfold check_module, try_except, mbind, M_bind, bind.
  rewrite find_spec_pure.
  destruct (spec_res m) as [[sp|]|e] eqn:Hm.
  - exists true. split; [done|]. split; eauto.
  - exists false. split; [done|]. split; [done|]. by intros (sp & [=]).
  - rewrite (find_spec_errors _ _ Hm). exists false. split; [done|].
    split; [done|]. by intros (sp & [=]).
Qed.

Lemma check_attribute_pure m a sp st :
  spec_res m = Returns (Some sp) ->
  check_attribute' m a st = (Returns (attr (mod_of sp) a), st).
Proof.
  intros Hm. unfold check_attribute, try_except, mbind, M_bind, bind.
  rewrite find_spec_pure, Hm, module_from_spec_pure.
  destruct (has_loader sp).
  - by rewrite exec_module_pure, hasattr_pure.
  - unfold mret, M_ret, ret. by rewrite hasattr_pure.
Qed.

Lemma check_attributes_pure m names sp st :
  spec_res m = Returns (Some sp) ->
  exists b, check_attributes' m names st = (Returns b, st)
            /\ (b = true <->
                forall a, a ∈ names -> attr (mod_of sp) (name a) = true).
Proof.
  intros Hm. induction names as [|a names (b & Hb & Hiff)].
  - exists true. split; [done|]. split; [|done]. by intros _ a ?%elem_of_nil.
  - cbn [check_attributes]. unfold mbind, M_bind, bind.
    rewrite (check_attribute_pure _ _ _ _ Hm).
    destruct (attr (mod_of sp) (name a)) eqn:Ha; cbn [negb].
    + exists b. split; [done|]. rewrite Hiff. split.
      * intros Hall a' [->|Hin]%elem_of_cons; [done | by apply Hall].
      * intros Hall a' Hin. apply Hall, elem_of_cons. by right.
    + exists false. split; [done|]. split; [done|].
      intros Hall. rewrite Hall in Ha; [done|]. apply elem_of_cons. by left.
Qed.

Lemma check_node_pure n st :
  n <> Import [] ->
  exists b, check_node' n st = (Returns b, st) /\ (b = true <-> ok n).
Proof.
  intros Hwf. destruct n as [[|first rest]|m names lvl|a|cls children].
  - done.
  - cbn [check_node].
    destruct (check_module_pure (Some (name first)) st) as (b & -> & Hiff).
    exists b. split; [done|]. rewrite Hiff. simpl. split.
    + intros (sp & Hsp). by exists first, rest, sp.
    + intros (f & r & sp & [= <- <-] & Hsp). by exists sp.
  - cbn [check_node]. unfold mbind, M_bind, bind.
    destruct (check_module_pure m st) as (b & -> & Hiff).
    destruct b; cbn [negb].
    + destruct Hiff as [(sp & Hsp) _]; [done|].
      destruct (check_attributes_pure m names sp st Hsp) as (b & -> & Hb).
      exists b. split; [done|]. rewrite Hb. simpl. split.
      * intros Hall. by exists sp.
      * intros (sp' & Hsp' & Hall).
        by assert (sp' = sp) as -> by congruence.
    + exists false. split; [done|]. split; [done|].
      intros (sp & Hsp & _). destruct Hiff as [_ Hiff].
      by discriminate Hiff; exists sp.
  - exists true. by split.
  - exists true. by split.
Qed.

Lemma check_nodes_pure nodes st :
  (forall n, n ∈ nodes -> n <> Import []) ->
  exists b, check_nodes' nodes st = (Returns b, st)
            /\ (b = true <-> forall n, n ∈ nodes -> ok n).
Proof.
  induction nodes as [|n nodes IH]; intros Hwf.
  - exists true. split; [done|]. split; [|done]. by intros _ n ?%elem_of_nil.
  - destruct IH as (b & Hb & Hiff).
    { intros n' Hin. apply Hwf, elem_of_cons. by right. }
    destruct (check_node_pure n st) as (bn & Hbn & Hn).
    { apply Hwf, elem_of_cons. by left. }
    rewrite check_nodes_cons, Hbn. destruct bn.
    + exists b. split; [done|]. rewrite Hiff. split.
      * intros Hall n' [->|Hin]%elem_of_cons; [by apply Hn | by apply Hall].
      * intros Hall n' Hin. apply Hall, elem_of_cons. by right.
    + exists false. split; [done|]. split; [done|].
      intros Hall. destruct Hn as [_ Hn].
      by discriminate Hn; apply Hall, elem_of_cons; left.
Qed.

(** X7. In such an environment [is_importable] raises nothing and leaves
    the state alone, and it answers [True] exactly when every import
    statement anywhere in the tree is in order: a plain import has a
    first module that is found, a from-import has a module that is found
    and that has every imported name. *)
Theorem is_importable_verdict code_string tree st :
  ast_parse code_string = Returns tree ->
  (forall x, descendant x tree -> x <> Import []) ->
  exists b,
    is_importable' code_string st = (Returns b, st)
    /\ (b = true <-> forall x, descendant x tree -> ok x).
Proof.
  intros Hparse Hwf. unfold is_importable. rewrite Hparse.
  destruct (check_nodes_pure (walk tree) st) as (b & Hb & Hiff).
  { intros n Hn%elem_of_walk. by apply Hwf. }
  exists b. split; [done|]. rewrite Hiff.
  split; intros Hall x Hx; apply Hall; by apply elem_of_walk.
Qed.

End PureEnvironment.

(** ** Instances of the further properties *)

Lemma value_error_not_caught_by_check_attribute_demo :
  check_module script_find_spec (Some "__main__") start
  = (Returns false, start)
  /\ check_attribute script_find_spec demo_module_from_spec
       demo_has_loader demo_exec_module demo_hasattr (Some "__main__") "x"
       start
     = (Raises {| exc_type := ValueError;
                  exc_str := "__main__.__spec__ is None" |},
        start).
Proof.
  apply (value_error_not_caught_by_check_attribute unit string string
           script_find_spec demo_module_from_spec demo_has_loader
           demo_exec_module demo_hasattr (Some "__main__") "x"
           {| exc_type := ValueError;
              exc_str := "__main__.__spec__ is None" |}
           start start); reflexivity.
Defined.

Lemma is_importable_verdict_demo :
  exists b,
    demo_is_importable "from os import path, nonexistent_function" start
    = (Returns b, start)
    /\ (b = true <->
        forall x,
          descendant x
            (Node "Module"
               [ImportFrom (Some "os")
                  [plain "path"; plain "nonexistent_function"] 0]) ->
          import_ok demo_spec_res id demo_attr x).
Proof.
  apply (is_importable_verdict unit demo_parse string string demo_find_spec
           demo_module_from_spec demo_has_loader demo_exec_module
           demo_hasattr demo_spec_res id demo_attr).
  - intros [m|] [[] out]; unfold demo_spec_res, demo_find_spec, start;
      [destruct (decide _)|]; reflexivity.
  - intros [m|] e; unfold demo_spec_res, demo_find_spec, start;
      [destruct (decide _); discriminate|].
    intros [= <-]. reflexivity.
  - intros sp [[] out]. reflexivity.
  - intros sp md [[] out]. reflexivity.
  - intros md a [[] out]. reflexivity.
  - reflexivity.
  - intros x Hx%elem_of_walk Heq. subst x.
    repeat (apply elem_of_cons in Hx as [Hx|Hx]; [discriminate Hx|]).
    by apply elem_of_nil in Hx.
Defined.

Lemma test_documentation_agent_short_circuits_demo :
  test_documentation_agent demo_compile demo_parse demo_find_spec
    demo_module_from_spec demo_has_loader demo_exec_module demo_hasattr
    {| classification := "code"; content := "print('Hello, World!'" |} start
  = (Raises AssertionError,
     {| py := tt;
        stdout := ["Syntax error: '(' was never closed (<string>, line 1)"] |}).
Proof.
  destruct (test_documentation_agent_short_circuits unit demo_compile
              demo_parse string string demo_find_spec demo_module_from_spec
              demo_has_loader demo_exec_module demo_hasattr
              {| classification := "code";
                 content := "print('Hello, World!'" |} start)
    as [_ Hfail].
  apply (Hfail {| exc_type := SyntaxError;
                  exc_str := "'(' was never closed (<string>, line 1)" |});
    reflexivity.
Defined.

Lemma is_importable_stops_at_first_failure_demo :
  demo_is_importable "import non_existent_module" start
  = (Returns false, start).
Proof.
  apply (is_importable_stops_at_first_failure unit demo_parse string string
           demo_find_spec demo_module_from_spec demo_has_loader
           demo_exec_module demo_hasattr "import non_existent_module"
           (Node "Module" [Import [plain "non_existent_module"]])
           [Node "Module" [Import [plain "non_existent_module"]]]
           (Import [plain "non_existent_module"])
           [Alias (plain "non_existent_module")] start start start);
    reflexivity.
Defined.

Lemma no_import_is_importable_demo :
  demo_is_importable "print('Hello, World!')" start = (Returns true, start).
Proof.
  apply (no_import_is_importable unit demo_parse string string
           demo_find_spec demo_module_from_spec demo_has_loader
           demo_exec_module demo_hasattr "print('Hello, World!')"
           (Node "Module"
              [Node "Expr"
                 [Node "Call"
                    [Node "Name" [Node "Load" []]; Node "Constant" []]]])).
  - reflexivity.
  - intros x Hx%elem_of_walk.
    repeat (apply elem_of_cons in Hx as [->|Hx]; [reflexivity|]).
    by apply elem_of_nil in Hx.
Defined.

End DocAgentEvalSpec.
